(** * Language_Translation_tool: the translation request handler of [app.py]

    A shallow embedding of [app.py]: the language table, the FastAPI handler
    [translate_text] and the Gradio adapter [translate_gradio], followed by
    the properties of the handler that the specification states.

    Python values are modelled as the program has them:
    - a [str] is a sequence of Unicode code points;
    - a [dict] is an insertion-ordered association list with unique keys;
    - exceptions are values of an inductive type, threaded through a small
      state-and-error monad whose state is the log of outbound HTTP calls. *)

From Stdlib Require Import List NArith ZArith String Ascii Bool DecimalString Lia.
Import ListNotations.

Set Implicit Arguments.

(* ================================================================= *)
(** ** Python strings *)

(** A character is a Unicode code point, a string a sequence of them. *)
Definition char := N.
Definition str := list char.

(** A literal of the source, written [$"..."]. *)
Definition lit (s : string) : str :=
  map N_of_ascii (list_ascii_of_string s).

Notation "$ s" := (lit s%string) (at level 1, s constr at level 0, format "$ s").

Definition str_eq_dec : forall a b : str, {a = b} + {a <> b} :=
  list_eq_dec N.eq_dec.

(** [str.isspace] on one character: the code points CPython classifies as
    whitespace (bidirectional class WS, B or S, or category Zs). *)
Definition isspace (c : char) : bool :=
  ((0x09 <=? c) && (c <=? 0x0D)          (* \t \n \v \f \r *)
   || (0x1C <=? c) && (c <=? 0x20)       (* FS GS RS US and the space *)
   || (c =? 0x85) || (c =? 0xA0)         (* NEL, no-break space *)
   || (c =? 0x1680)
   || (0x2000 <=? c) && (c <=? 0x200A)
   || (c =? 0x2028) || (c =? 0x2029)
   || (c =? 0x202F) || (c =? 0x205F)
   || (c =? 0x3000))%N.

(** [s.lstrip()], [s.rstrip()] and [s.strip()] without arguments. *)
Fixpoint lstrip (s : str) : str :=
  match s with
  | c :: s' => if isspace c then lstrip s' else s
  | [] => []
  end.

Definition rstrip (s : str) : str := rev (lstrip (rev s)).

Definition strip (s : str) : str := rstrip (lstrip s).

(** Truth value of a string: the empty string is falsy. *)
Definition str_bool (s : str) : bool :=
  match s with [] => false | _ :: _ => true end.

(** A string made of whitespace only (the empty one included). *)
Definition blank (s : str) : bool := forallb isspace s.

(** [a in b] for two strings: [a] occurs in [b] as a substring. *)
Fixpoint startswith (b a : str) : bool :=
  match a, b with
  | [], _ => true
  | x :: a', y :: b' => N.eqb x y && startswith b' a'
  | _ :: _, [] => false
  end.

Fixpoint str_contains (b a : str) : bool :=
  startswith b a || match b with [] => false | _ :: b' => str_contains b' a end.

(* ================================================================= *)
(** ** Python dictionaries *)

Definition dict (K V : Type) := list (K * V).

Section Dict.
Context {K V : Type}.
Variable K_eq_dec : forall a b : K, {a = b} + {a <> b}.

(** [d.get(k)]; [d[k]] raises [KeyError] where this is [None]. *)
Fixpoint dict_get (k : K) (d : dict K V) : option V :=
  match d with
  | [] => None
  | (k', v) :: d' => if K_eq_dec k k' then Some v else dict_get k d'
  end.

(** [k in d] *)
Definition dict_contains (k : K) (d : dict K V) : bool :=
  match dict_get k d with Some _ => true | None => false end.

(** [d[k] = v]: an existing key keeps its place, a new one goes last. *)
Fixpoint dict_set (k : K) (v : V) (d : dict K V) : dict K V :=
  match d with
  | [] => [(k, v)]
  | (k', v') :: d' =>
      if K_eq_dec k k' then (k', v) :: d' else (k', v') :: dict_set k v d'
  end.

(** A literal [{k1: v1, ..., kn: vn}], evaluated left to right. *)
Definition dict_literal (items : list (K * V)) : dict K V :=
  fold_left (fun d kv => dict_set (fst kv) (snd kv) d) items [].

Definition dict_items (d : dict K V) : list (K * V) := d.
Definition dict_keys (d : dict K V) : list K := map fst d.
Definition dict_values (d : dict K V) : list V := map snd d.

End Dict.

(** The comprehension [{v: k for k, v in d.items()}]. *)
Definition dict_invert {K V : Type} (V_eq_dec : forall a b : V, {a = b} + {a <> b})
    (d : dict K V) : dict V K :=
  fold_left (fun acc kv => dict_set V_eq_dec (snd kv) (fst kv) acc) (dict_items d) [].

(* ================================================================= *)
(** ** Config *)

Definition TRANSLATION_API_URL : str := $"http://localhost:5000/translate".

Definition SUPPORTED_LANGUAGES : dict str str :=
  dict_literal str_eq_dec
    [ ($"en", $"English");
      ($"es", $"Spanish");
      ($"fr", $"French");
      ($"de", $"German");
      ($"it", $"Italian");
      ($"pt", $"Portuguese");
      ($"ru", $"Russian");
      ($"zh", $"Chinese");
      ($"ar", $"Arabic");
      ($"tr", $"Turkish");
      ($"ja", $"Japanese");
      ($"ko", $"Korean");
      ($"hi", $"Hindi") ].

(** The thirteen codes of the table, in the order of the source. *)
Definition language_codes : list str :=
  [ $"en"; $"es"; $"fr"; $"de"; $"it"; $"pt"; $"ru"; $"zh"; $"ar"; $"tr";
    $"ja"; $"ko"; $"hi" ].

(** [inv_langs] of [translate_gradio]: display name to code. *)
Definition inv_langs : dict str str :=
  dict_invert str_eq_dec SUPPORTED_LANGUAGES.

(* ================================================================= *)
(** ** Translation models *)

Record TranslationRequest := {
  text : str;
  source_lang : str;
  target_lang : str
}.

Record TranslationResponse := {
  translated_text : str
}.

(* ================================================================= *)
(** ** The outside world: JSON values, HTTP responses, exceptions *)

(** What [json.loads] can return.  A number keeps its literal: the handler
    never looks inside one. *)
#[local] Set Warnings "-register-all".
Inductive json :=
| JNull
| JBool (b : bool)
| JNum (literal : str)
| JStr (s : str)
| JArr (items : list json)
| JObj (members : dict str json).
#[local] Set Warnings "register-all".

(** An [httpx.Response] as the handler observes it: [response.status_code],
    [response.text], and what [response.json()] returns ([None] where it
    raises because the body is not JSON). *)
Record Response := {
  resp_status_code : Z;
  resp_text : str;
  resp_json : option json
}.

(** The exceptions that can occur while the handler runs.  All of them are
    subclasses of [Exception]; only [HTTPStatusError] is an
    [httpx.HTTPStatusError]. *)
Inductive exn :=
| HTTPException (status_code : Z) (detail : str)   (* fastapi *)
| HTTPStatusError (response : Response)            (* httpx, from raise_for_status *)
| TransportError (descr : str)                     (* httpx, the request itself failed *)
| JSONDecodeError (doc : str)                      (* response.json() on a malformed body *)
| TypeError (operand : json)                       (* [in] or [[...]] on an unfit value *)
| KeyError (key : str)
| ValidationError (value : json).                  (* pydantic *)

(** One outbound request, as handed to [httpx]. *)
Record HttpCall := {
  call_method : str;
  call_url : str;
  call_data : dict str str;
  call_headers : dict str str
}.

(** What the libraries decide and the source does not: the text of
    [str(e)], and which JSON values pydantic accepts for a field declared
    [str] (a JSON string is always accepted, unchanged). *)
Class Runtime := {
  exc_str : exn -> str;
  validate_str : json -> option str;
  validate_str_JStr : forall s, validate_str (JStr s) = Some s
}.

(* ================================================================= *)
(** ** The monad of the handler: a log of outbound calls, and exceptions *)

(** The outbound calls issued so far, oldest first. *)
Definition World := list HttpCall.

Definition M (A : Type) : Type := World -> (exn + A) * World.

Definition ret {A} (a : A) : M A := fun w => (inr a, w).

Definition bind {A B} (m : M A) (k : A -> M B) : M B :=
  fun w => match m w with
           | (inl e, w') => (inl e, w')
           | (inr a, w') => k a w'
           end.

Definition raise {A} (e : exn) : M A := fun w => (inl e, w).

(** [try: m  except ... as e: handler e] *)
Definition try_except {A} (m : M A) (handler : exn -> M A) : M A :=
  fun w => match m w with
           | (inl e, w') => handler e w'
           | (inr a, w') => (inr a, w')
           end.

(** [if b: m] as a statement. *)
Definition when (b : bool) (m : M unit) : M unit :=
  if b then m else ret tt.

Declare Scope py_scope.
Delimit Scope py_scope with py.
Notation "x <- m ;; k" := (bind m (fun x => k))
  (at level 61, m at next level, right associativity) : py_scope.
Notation "m ;; k" := (bind m (fun _ => k))
  (at level 61, right associativity) : py_scope.
Open Scope py_scope.

(* ================================================================= *)
(** ** Library operations used by the handler *)

(** [response.is_success]: a 2xx status. *)
Definition is_success (status : Z) : bool :=
  ((200 <=? status) && (status <=? 299))%Z.

(** [response.raise_for_status()] *)
Definition raise_for_status (response : Response) : M unit :=
  if is_success (resp_status_code response) then ret tt
  else raise (HTTPStatusError response).

(** [response.json()] *)
Definition Response_json (response : Response) : M json :=
  match resp_json response with
  | Some data => ret data
  | None => raise (JSONDecodeError (resp_text response))
  end.

(** [key in data] for a string [key] and a decoded JSON value. *)
Definition py_in (key : str) (data : json) : M bool :=
  match data with
  | JObj members => ret (dict_contains str_eq_dec key members)
  | JArr items =>
      ret (existsb (fun j => match j with
                             | JStr s => if str_eq_dec key s then true else false
                             | _ => false
                             end) items)
  | JStr s => ret (str_contains s key)
  | JNull | JBool _ | JNum _ => raise (TypeError data)
  end.

(** [data[key]] for a string [key]. *)
Definition py_getitem (data : json) (key : str) : M json :=
  match data with
  | JObj members =>
      match dict_get str_eq_dec key members with
      | Some v => ret v
      | None => raise (KeyError key)
      end
  | _ => raise (TypeError data)
  end.

(** [d[key]] on a dictionary of the program. *)
Definition dict_getitem {V} (d : dict str V) (key : str) : M V :=
  match dict_get str_eq_dec key d with
  | Some v => ret v
  | None => raise (KeyError key)
  end.

(* ================================================================= *)
(** ** FastAPI endpoint and Gradio adapter *)

Section Handler.
Context {RT : Runtime}.

(** The translation backend: what the transport hands back for a call,
    a response or an exception. *)
Variable backend : HttpCall -> exn + Response.

(** [await client.post(url, data=..., headers=...)] *)
Definition post (url : str) (data headers : dict str str) : M Response :=
  fun w =>
    let call := {| call_method := $"POST"; call_url := url;
                   call_data := data; call_headers := headers |} in
    (backend call, w ++ [call]).

(** [TranslationResponse(translated_text=v)] *)
Definition mk_TranslationResponse (v : json) : M TranslationResponse :=
  match validate_str v with
  | Some s => ret {| translated_text := s |}
  | None => raise (ValidationError v)
  end.

Definition translate_text (request : TranslationRequest) : M TranslationResponse :=
  when (negb (str_bool (strip (text request))))
    (raise (HTTPException 400 $"Text is required.")) ;;

  when (negb (dict_contains str_eq_dec (source_lang request) SUPPORTED_LANGUAGES))
    (raise (HTTPException 400
              ($"Unsupported source language: " ++ source_lang request))) ;;
  when (negb (dict_contains str_eq_dec (target_lang request) SUPPORTED_LANGUAGES))
    (raise (HTTPException 400
              ($"Unsupported target language: " ++ target_lang request))) ;;

  let payload := dict_literal str_eq_dec
    [ ($"q", text request);
      ($"source", source_lang request);
      ($"target", target_lang request);
      ($"format", $"text") ] in

  try_except
    (response <- post TRANSLATION_API_URL payload
                   (dict_literal str_eq_dec
                      [ ($"Content-Type", $"application/x-www-form-urlencoded") ]) ;;
     raise_for_status response ;;
     data <- Response_json response ;;

     present <- py_in $"translatedText" data ;;
     when (negb present)
       (raise (HTTPException 500 $"Unexpected API response format.")) ;;

     v <- py_getitem data $"translatedText" ;;
     mk_TranslationResponse v)
    (fun e =>
       match e with
       | HTTPStatusError response =>
           raise (HTTPException 500
                    ($"Translation service error: " ++ resp_text response))
       | _ =>
           raise (HTTPException 500 ($"Internal server error: " ++ exc_str e))
       end).

Definition translate_gradio (text source_lang_name target_lang_name : str) : M str :=
  (* Convert language names to codes *)
  source_lang <- dict_getitem inv_langs source_lang_name ;;
  target_lang <- dict_getitem inv_langs target_lang_name ;;

  let request := {| text := text;
                    source_lang := source_lang;
                    target_lang := target_lang |} in

  response <- translate_text request ;;
  ret (translated_text response).
End Handler.

(* ================================================================= *)
(** ** The call the specification describes *)

(** The outbound call in the words of the specification: method POST to the
    configured backend address, form fields [q], [source], [target] and
    [format], and the form content type as the only header. *)
Definition spec_outbound_call (request : TranslationRequest) : HttpCall :=
  {| call_method := $"POST";
     call_url := $"http://localhost:5000/translate";
     call_data := [ ($"q", text request);
                    ($"source", source_lang request);
                    ($"target", target_lang request);
                    ($"format", $"text") ];
     call_headers := [ ($"Content-Type", $"application/x-www-form-urlencoded") ] |}.

(** A request that passes the three checks of the handler. *)
Definition well_formed (request : TranslationRequest) : Prop :=
  blank (text request) = false
  /\ In (source_lang request) language_codes
  /\ In (target_lang request) language_codes.

(** One runtime to run the handler on concrete inputs: [str(e)] of an
    [HTTPException] in the manner of Starlette (status, colon, detail), the
    carried text for the other exceptions, and a pydantic that accepts
    strings only. *)
Definition sample_exc_str (e : exn) : str :=
  match e with
  | HTTPException status detail =>
      lit (NilEmpty.string_of_int (Z.to_int status)) ++ $": " ++ detail
  | HTTPStatusError response => resp_text response
  | TransportError descr => descr
  | JSONDecodeError doc => doc
  | KeyError key => key
  | TypeError _ => $"TypeError"
  | ValidationError _ => $"ValidationError"
  end.

Definition sample_validate_str (v : json) : option str :=
  match v with JStr s => Some s | _ => None end.

#[local] Instance sample_runtime : Runtime :=
  {| exc_str := sample_exc_str;
     validate_str := sample_validate_str;
     validate_str_JStr := fun s => eq_refl |}.

(** A backend that answers every call with the same response. *)
Definition constant_backend (response : Response) : HttpCall -> exn + Response :=
  fun _ => inr response.

(** A backend that cannot be reached. *)
Definition unreachable_backend : HttpCall -> exn + Response :=
  fun _ => inl (TransportError $"All connection attempts failed").

(** A computation that issues no outbound call. *)
Definition silent {A} (m : M A) : Prop := forall w, snd (m w) = w.

(** The request and the backend reply of the specification's example; the
    body reads [{"translatedText": "Hola"}]. *)
Definition hello_request : TranslationRequest :=
  {| text := $"Hello"; source_lang := $"en"; target_lang := $"es" |}.

Definition hola_body : str :=
  [123; 34]%N ++ $"translatedText" ++ [34; 58; 32; 34]%N ++ $"Hola" ++ [34; 125]%N.

Definition hola_response : Response :=
  {| resp_status_code := 200;
     resp_text := hola_body;
     resp_json := Some (JObj [ ($"translatedText", JStr $"Hola") ]) |}.

(** The reply with an empty JSON object, [{}]. *)
Definition empty_object_response : Response :=
  {| resp_status_code := 200;
     resp_text := [123; 125]%N;
     resp_json := Some (JObj []) |}.

(** A reply [503 Service Unavailable]. *)
Definition unavailable_response : Response :=
  {| resp_status_code := 503;
     resp_text := $"Service Unavailable";
     resp_json := None |}.

(** A text of whitespace only: two spaces, a tab and a line feed. *)
Definition whitespace_text : str := [32; 32; 9; 10]%N.

(** "Hello" between two spaces and a line feed. *)
Definition padded_hello : str := [32; 32]%N ++ $"Hello" ++ [10]%N.

(** A reply 200 whose body is a page of HTML, not JSON. *)
Definition html_response : Response :=
  {| resp_status_code := 200;
     resp_text := $"<html></html>";
     resp_json := None |}.

(** A reply 200 whose body is the JSON list of the one string
    "translatedText". *)
Definition list_response : Response :=
  {| resp_status_code := 200;
     resp_text := [91; 34]%N ++ $"translatedText" ++ [34; 93]%N;
     resp_json := Some (JArr [JStr $"translatedText"]) |}.

(** A reply 200 whose [translatedText] is the number 42. *)
Definition number_response : Response :=
  {| resp_status_code := 200;
     resp_text := [123; 34]%N ++ $"translatedText" ++ [34; 58; 32]%N ++ $"42" ++ [125]%N;
     resp_json := Some (JObj [ ($"translatedText", JNum $"42") ]) |}.

(* ================================================================= *)
(** ** Gradio interface *)

(** The two dropdowns of [demo] offer [list(SUPPORTED_LANGUAGES.values())];
    the source one starts at "English", the target one at "Spanish". *)
Definition language_choices : list str := dict_values SUPPORTED_LANGUAGES.

Definition default_source_choice : str := $"English".
Definition default_target_choice : str := $"Spanish".

(** A pair of a dictionary with its sides exchanged. *)
Definition swap {K V : Type} (kv : K * V) : V * K := (snd kv, fst kv).

(* ================================================================= *)
(** ** Properties of dictionaries *)

Section DictFacts.
Context {K V : Type}.
Variable K_eq_dec : forall a b : K, {a = b} + {a <> b}.

Lemma dict_get_In k (v : V) d : dict_get K_eq_dec k d = Some v -> In (k, v) d.
Proof.
  induction d as [|[k' v'] d IH]; simpl; [discriminate|].
  destruct (K_eq_dec k k') as [->|_]; intros H.
  - injection H as ->. now left.
  - right. auto.
Qed.

Lemma dict_get_None k (d : dict K V) : dict_get K_eq_dec k d = None <-> ~ In k (dict_keys d).
Proof.
  induction d as [|[k' v'] d IH]; simpl.
  - tauto.
  - destruct (K_eq_dec k k') as [->|Hne].
    + split; [discriminate | intros H; exfalso; apply H; now left].
    + rewrite IH. split; intros H; [intros [E|E]; [congruence|tauto] | tauto].
Qed.

Lemma dict_contains_In k (d : dict K V) :
  dict_contains K_eq_dec k d = true <-> In k (dict_keys d).
Proof.
  unfold dict_contains. destruct (dict_get K_eq_dec k d) eqn:E.
  - split; [intros _ | reflexivity].
    apply dict_get_In in E. apply (in_map fst) in E. exact E.
  - apply dict_get_None in E. split; [discriminate | tauto].
Qed.

Lemma dict_get_set_eq k (v : V) d : dict_get K_eq_dec k (dict_set K_eq_dec k v d) = Some v.
Proof.
  induction d as [|[k' v'] d IH]; simpl.
  - now destruct (K_eq_dec k k).
  - destruct (K_eq_dec k k') as [->|Hne]; simpl.
    + now destruct (K_eq_dec k' k').
    + now destruct (K_eq_dec k k').
Qed.

Lemma dict_get_set_ne k k' (v : V) d :
  k <> k' -> dict_get K_eq_dec k' (dict_set K_eq_dec k v d) = dict_get K_eq_dec k' d.
Proof.
  intros Hne. induction d as [|[k0 v0] d IH]; simpl.
  - destruct (K_eq_dec k' k); congruence.
  - destruct (K_eq_dec k k0) as [->|Hk]; simpl.
    + destruct (K_eq_dec k' k0); congruence.
    + destruct (K_eq_dec k' k0); congruence.
Qed.
End DictFacts.

Section Invert.
Context {K V : Type}.
Variable K_eq_dec : forall a b : K, {a = b} + {a <> b}.
Variable V_eq_dec : forall a b : V, {a = b} + {a <> b}.

Let step := fun (acc : dict V K) (kv : K * V) =>
  dict_set V_eq_dec (snd kv) (fst kv) acc.

Lemma invert_untouched v l acc :
  ~ In v (map snd l) ->
  dict_get V_eq_dec v (fold_left step l acc) = dict_get V_eq_dec v acc.
Proof.
  revert acc. induction l as [|[k0 v0] l IH]; intros acc Hv; simpl in *.
  - reflexivity.
  - rewrite IH by tauto. unfold step; simpl.
    apply dict_get_set_ne. intros ->. tauto.
Qed.

Lemma invert_fold k v l acc :
  NoDup (map snd l) -> In (k, v) l ->
  dict_get V_eq_dec v (fold_left step l acc) = Some k.
Proof.
  revert acc. induction l as [|[k0 v0] l IH]; intros acc Hnd Hin; simpl in *.
  - contradiction.
  - inversion Hnd as [|? ? Hnotin Hnd']; subst.
    destruct Hin as [E|Hin].
    + injection E as -> ->.
      rewrite invert_untouched by assumption.
      unfold step; simpl. apply dict_get_set_eq.
    + now apply IH.
Qed.

(** Inverting a dictionary whose values are pairwise distinct gives the
    inverse of its lookup. *)
Lemma dict_invert_get (d : dict K V) k v :
  NoDup (dict_values d) ->
  dict_get K_eq_dec k d = Some v ->
  dict_get V_eq_dec v (dict_invert V_eq_dec d) = Some k.
Proof.
  intros Hnd Hget. apply invert_fold; [exact Hnd|].
  now apply dict_get_In in Hget.
Qed.

(** With distinct values, a value determines its key. *)
Lemma dict_values_inj (d : dict K V) k k' v :
  NoDup (dict_values d) ->
  dict_get K_eq_dec k d = Some v -> dict_get K_eq_dec k' d = Some v -> k = k'.
Proof.
  intros Hnd H1 H2.
  apply dict_invert_get in H1; [|exact Hnd].
  apply dict_invert_get in H2; [|exact Hnd].
  congruence.
Qed.
End Invert.

(* ================================================================= *)
(** ** Properties of the primitives *)

Lemma lstrip_nil_iff s : lstrip s = [] <-> blank s = true.
Proof.
  induction s as [|c s IH]; simpl.
  - tauto.
  - destruct (isspace c); simpl; [exact IH | split; discriminate].
Qed.

Lemma lstrip_blank s : blank (lstrip s) = true -> blank s = true.
Proof.
  induction s as [|c s IH]; simpl; [reflexivity|].
  destruct (isspace c) eqn:E; simpl; [exact IH|].
  rewrite E. discriminate.
Qed.

Lemma blank_rev s : blank (rev s) = blank s.
Proof.
  unfold blank. induction s as [|c s IH]; simpl; [reflexivity|].
  rewrite forallb_app, IH. simpl. rewrite andb_true_r. apply andb_comm.
Qed.

(** [strip] leaves nothing exactly when the string is whitespace only. *)
Lemma strip_nil_iff s : strip s = [] <-> blank s = true.
Proof.
  unfold strip, rstrip. split; intros H.
  - apply lstrip_blank.
    rewrite <- blank_rev. apply lstrip_nil_iff.
    destruct (lstrip (rev (lstrip s))); [reflexivity|].
    apply (f_equal (@List.length _)) in H. rewrite length_rev in H. discriminate.
  - apply lstrip_nil_iff in H. rewrite H. reflexivity.
Qed.

Lemma str_bool_strip s : str_bool (strip s) = negb (blank s).
Proof.
  destruct (blank s) eqn:E.
  - apply strip_nil_iff in E. now rewrite E.
  - destruct (strip s) eqn:S; [|reflexivity].
    apply strip_nil_iff in S. congruence.
Qed.

Lemma SUPPORTED_LANGUAGES_keys : dict_keys SUPPORTED_LANGUAGES = language_codes.
Proof. reflexivity. Qed.

Lemma supported_iff c :
  dict_contains str_eq_dec c SUPPORTED_LANGUAGES = true <-> In c language_codes.
Proof. rewrite dict_contains_In. now rewrite SUPPORTED_LANGUAGES_keys. Qed.

Lemma unsupported_iff c :
  dict_contains str_eq_dec c SUPPORTED_LANGUAGES = false <-> ~ In c language_codes.
Proof.
  rewrite <- supported_iff.
  destruct (dict_contains str_eq_dec c SUPPORTED_LANGUAGES); split; congruence.
Qed.

Lemma SUPPORTED_LANGUAGES_values_NoDup : NoDup (dict_values SUPPORTED_LANGUAGES).
Proof.
  apply (NoDup_count_occ' str_eq_dec). intros x Hx.
  repeat (destruct Hx as [<-|Hx]; [reflexivity|]). contradiction.
Qed.

(** ** More on [strip] and on substrings *)

Lemma lstrip_length s : List.length (lstrip s) <= List.length s.
Proof.
  induction s as [|c s IH]; simpl; [lia|].
  destruct (isspace c); simpl; lia.
Qed.

Lemma rstrip_length s : List.length (rstrip s) <= List.length s.
Proof.
  unfold rstrip. rewrite length_rev.
  etransitivity; [apply lstrip_length|]. rewrite length_rev. lia.
Qed.

Lemma lstrip_app_blank a b : blank a = true -> lstrip (a ++ b) = lstrip b.
Proof.
  induction a as [|c a IH]; simpl; [reflexivity|].
  intros H. apply andb_prop in H as [Hc Ha]. rewrite Hc. auto.
Qed.

Lemma lstrip_app_nonblank a b : blank a = false -> lstrip (a ++ b) = lstrip a ++ b.
Proof.
  induction a as [|c a IH]; simpl; [discriminate|].
  destruct (isspace c); simpl; [exact IH | reflexivity].
Qed.

Lemma lstrip_shorter a b :
  blank a = true -> a <> [] -> List.length (lstrip (a ++ b)) < List.length (a ++ b).
Proof.
  intros Ha Hne. rewrite lstrip_app_blank by assumption.
  pose proof (lstrip_length b). rewrite length_app.
  destruct a; [congruence | simpl; lia].
Qed.

(** Whitespace around a text with content is removed by [strip]: the
    stripped text is strictly shorter. *)
Lemma strip_shorter lead core trail :
  blank lead = true -> blank trail = true -> blank core = false ->
  lead ++ trail <> [] ->
  List.length (strip (lead ++ core ++ trail))
  < List.length (lead ++ core ++ trail).
Proof.
  intros Hl Ht Hc Hne. unfold strip.
  destruct lead as [|c lead].
  - simpl in *. rewrite lstrip_app_nonblank by assumption.
    unfold rstrip. rewrite length_rev, rev_app_distr.
    pose proof (@lstrip_shorter (rev trail) (rev (lstrip core))) as H.
    rewrite blank_rev in H. specialize (H Ht).
    assert (rev trail <> []) as Hr.
    { intros E. apply (f_equal (@rev _)) in E. rewrite rev_involutive in E.
      simpl in E. congruence. }
    specialize (H Hr). rewrite length_app, !length_rev in H.
    pose proof (lstrip_length core). rewrite !length_app. lia.
  - pose proof (rstrip_length (lstrip ((c :: lead) ++ core ++ trail))).
    pose proof (@lstrip_shorter (c :: lead) (core ++ trail) Hl ltac:(discriminate)).
    lia.
Qed.

Lemma blank_app a b : blank (a ++ b) = blank a && blank b.
Proof. apply forallb_app. Qed.

Lemma startswith_refl s : startswith s s = true.
Proof. induction s as [|c s IH]; simpl; [reflexivity|]. now rewrite N.eqb_refl. Qed.

(** [s in prefix + s] *)
Lemma str_contains_suffix prefix s : str_contains (prefix ++ s) s = true.
Proof.
  induction prefix as [|c p IH]; simpl.
  - destruct s; simpl; [reflexivity|].
    now rewrite N.eqb_refl, startswith_refl.
  - rewrite IH. apply orb_true_r.
Qed.

(* ================================================================= *)
(** ** Computations that issue no outbound call *)

Create HintDb silent.

Lemma silent_ret {A} (a : A) : silent (ret a).
Proof. intros w. reflexivity. Qed.

Lemma silent_raise {A} (e : exn) : silent (@raise A e).
Proof. intros w. reflexivity. Qed.

Lemma silent_bind {A B} (m : M A) (k : A -> M B) :
  silent m -> (forall a, silent (k a)) -> silent (bind m k).
Proof.
  intros Hm Hk w. unfold bind. specialize (Hm w).
  destruct (m w) as [[e|a] w']; simpl in *; subst; [reflexivity | apply Hk].
Qed.

Lemma silent_when b m : silent m -> silent (when b m).
Proof. destruct b; simpl; [easy | intros _; apply silent_ret]. Qed.

Lemma silent_raise_for_status response : silent (raise_for_status response).
Proof.
  unfold raise_for_status.
  destruct (is_success _); [apply silent_ret | apply silent_raise].
Qed.

Lemma silent_Response_json response : silent (Response_json response).
Proof.
  unfold Response_json.
  destruct (resp_json _); [apply silent_ret | apply silent_raise].
Qed.

Lemma silent_py_in key data : silent (py_in key data).
Proof. destruct data; simpl; first [apply silent_ret | apply silent_raise]. Qed.

Lemma silent_py_getitem data key : silent (py_getitem data key).
Proof.
  destruct data; simpl; try apply silent_raise.
  destruct (dict_get _ _ _); [apply silent_ret | apply silent_raise].
Qed.

Lemma silent_mk_TranslationResponse {RT : Runtime} v :
  silent (mk_TranslationResponse v).
Proof.
  unfold mk_TranslationResponse.
  destruct (validate_str v); [apply silent_ret | apply silent_raise].
Qed.

#[export] Hint Resolve silent_ret silent_raise silent_when
  silent_raise_for_status silent_Response_json silent_py_in
  silent_py_getitem silent_mk_TranslationResponse : silent.

(** The only writer of the log is [post]: a [try] around one [post]
    followed by silent steps, with silent handlers, adds that one call. *)
Lemma try_post_log {A} (result : exn + Response) (call : HttpCall)
    (k : Response -> M A) (handler : exn -> M A) w :
  (forall response, silent (k response)) ->
  (forall e, silent (handler e)) ->
  snd (try_except (bind (fun w => (result, w ++ [call])) k) handler w)
  = w ++ [call].
Proof.
  intros Hk Hh. unfold try_except, bind.
  destruct result as [e|response].
  - apply Hh.
  - specialize (Hk response (w ++ [call])).
    destruct (k response (w ++ [call])) as [[e|a] w']; simpl in *; subst;
      [apply Hh | reflexivity].
Qed.

(* ================================================================= *)
(** ** The handler, check by check *)

Section HandlerFacts.
Context {RT : Runtime}.
Variable backend : HttpCall -> exn + Response.

(** The call built by the handler is the one the specification describes. *)
Lemma post_outbound req w :
  post backend TRANSLATION_API_URL
    (dict_literal str_eq_dec
       [ ($"q", text req); ($"source", source_lang req);
         ($"target", target_lang req); ($"format", $"text") ])
    (dict_literal str_eq_dec
       [ ($"Content-Type", $"application/x-www-form-urlencoded") ]) w
  = (backend (spec_outbound_call req), w ++ [spec_outbound_call req]).
Proof. reflexivity. Qed.

Lemma translate_text_blank req w :
  blank (text req) = true ->
  translate_text backend req w
  = (inl (HTTPException 400 $"Text is required."), w).
Proof.
  intros Hb. unfold translate_text. rewrite str_bool_strip, Hb. reflexivity.
Qed.

Lemma translate_text_bad_source req w :
  blank (text req) = false ->
  ~ In (source_lang req) language_codes ->
  translate_text backend req w
  = (inl (HTTPException 400
            ($"Unsupported source language: " ++ source_lang req)), w).
Proof.
  intros Hb Hs. apply unsupported_iff in Hs.
  unfold translate_text. rewrite str_bool_strip, Hb, Hs. reflexivity.
Qed.

Lemma translate_text_bad_target req w :
  blank (text req) = false ->
  In (source_lang req) language_codes ->
  ~ In (target_lang req) language_codes ->
  translate_text backend req w
  = (inl (HTTPException 400
            ($"Unsupported target language: " ++ target_lang req)), w).
Proof.
  intros Hb Hs Ht. apply supported_iff in Hs. apply unsupported_iff in Ht.
  unfold translate_text. rewrite str_bool_strip, Hb, Hs, Ht. reflexivity.
Qed.
End HandlerFacts.

(** Past the three checks: what is left of [translate_text] is the [try]
    block, with the outbound call already issued. *)
Ltac pass_checks Hwf :=
  let Hb := fresh "Hblank" in
  let Hs := fresh "Hsource" in
  let Ht := fresh "Htarget" in
  destruct Hwf as (Hb & Hs & Ht);
  apply supported_iff in Hs; apply supported_iff in Ht;
  unfold translate_text;
  rewrite str_bool_strip, Hb, Hs, Ht;
  cbn [negb when]; cbv zeta.

Ltac run_try :=
  unfold try_except at 1; unfold bind at 1 2 3 4; cbn [ret];
  rewrite post_outbound.

Section ForwardingFacts.
Context {RT : Runtime}.
Variable backend : HttpCall -> exn + Response.

(** A request that passes the checks leaves exactly one call in the log,
    whatever the backend does with it. *)
Lemma translate_text_log req w :
  well_formed req ->
  snd (translate_text backend req w) = w ++ [spec_outbound_call req].
Proof.
  intros Hwf. pass_checks Hwf.
  unfold bind at 1 2 3. cbn [ret].
  apply (try_post_log (backend (spec_outbound_call req)) (spec_outbound_call req)).
  - intros response.
    repeat (apply silent_bind; [auto with silent | intros ?]).
    auto with silent.
  - intros []; apply silent_raise.
Qed.

(** Past the checks every failure of the handler has status 500. *)
Lemma translate_text_outcome req w e :
  well_formed req ->
  fst (translate_text backend req w) = inl e ->
  exists detail, e = HTTPException 500 detail.
Proof.
  intros Hwf. pass_checks Hwf. run_try.
  destruct (backend (spec_outbound_call req)) as [e0|response].
  - destruct e0; cbn; intros [= <-]; eexists; reflexivity.
  - match goal with
    | |- context [ (let (_, _) := ?m ?w0 in _) ] =>
        destruct (m w0) as [[e0|r] w']
    end.
    + destruct e0; cbn; intros [= <-]; eexists; reflexivity.
    + discriminate.
Qed.
End ForwardingFacts.

(** The two language messages never coincide. *)
Lemma language_messages_differ (a b : str) :
  $"Unsupported source language: " ++ a <> $"Unsupported target language: " ++ b.
Proof.
  intros H. apply (f_equal (fun s => nth 12 s 0%N)) in H. discriminate H.
Qed.

(* ================================================================= *)
(** ** The stated properties *)

Lemma hello_request_well_formed : well_formed hello_request.
Proof. repeat split; simpl; tauto. Qed.

Section Claims.
Context {RT : Runtime}.
Variable backend : HttpCall -> exn + Response.

(** C1. For the request with text "Hello", source "en" and target "es",
    when the backend answers the call with status 200 and the body
    [{"translatedText": "Hola"}], [translate_text] returns a response
    whose [translated_text] is "Hola". *)
Theorem translate_hello_returns_hola w :
  backend (spec_outbound_call hello_request) = inr hola_response ->
  fst (translate_text backend hello_request w)
  = inr {| translated_text := $"Hola" |}.
Proof.
  intros Hreply. pose proof hello_request_well_formed as Hwf.
  pass_checks Hwf. run_try. rewrite Hreply.
  cbn. unfold mk_TranslationResponse. rewrite validate_str_JStr. reflexivity.
Qed.

(** C2 (amended). For every request whose text is empty or made of
    whitespace only, whatever its language codes, [translate_text] fails
    with status 400 and the detail "Text is required.", before any
    language check and without touching the log. *)
Theorem blank_text_rejected req w :
  blank (text req) = true ->
  translate_text backend req w
  = (inl (HTTPException 400 $"Text is required."), w).
Proof. apply translate_text_blank. Qed.

(** C3 (amended). For a request whose text has a character that is not
    whitespace, a language code outside the table of thirteen, as source or
    as target, is rejected with status 400 and a detail that ends with an
    offending code: the source is checked first and named if it is outside
    the table, else the target is; the two details are never equal. *)
Theorem unsupported_language_rejected req w :
  blank (text req) = false ->
  (~ In (source_lang req) language_codes ->
     fst (translate_text backend req w)
     = inl (HTTPException 400
              ($"Unsupported source language: " ++ source_lang req)))
  /\ (In (source_lang req) language_codes ->
      ~ In (target_lang req) language_codes ->
      fst (translate_text backend req w)
      = inl (HTTPException 400
               ($"Unsupported target language: " ++ target_lang req)))
  /\ (~ In (source_lang req) language_codes
      \/ ~ In (target_lang req) language_codes ->
      exists code prefix,
        ~ In code language_codes
        /\ (code = source_lang req \/ code = target_lang req)
        /\ fst (translate_text backend req w)
           = inl (HTTPException 400 (prefix ++ code)))
  /\ $"Unsupported source language: " ++ source_lang req
     <> $"Unsupported target language: " ++ target_lang req.
Proof.
  intros Hb. repeat split.
  - intros Hs. now rewrite translate_text_bad_source.
  - intros Hs Ht. now rewrite translate_text_bad_target.
  - intros Hbad.
    destruct (in_dec str_eq_dec (source_lang req) language_codes) as [Hs|Hs].
    + assert (~ In (target_lang req) language_codes) as Ht by tauto.
      exists (target_lang req), $"Unsupported target language: ".
      rewrite translate_text_bad_target by assumption. tauto.
    + exists (source_lang req), $"Unsupported source language: ".
      rewrite translate_text_bad_source by assumption. tauto.
  - apply language_messages_differ.
Qed.

(** C4. For every request that passes the checks, when the backend
    answers with a success status and a JSON object without the field
    [translatedText], the handler raises its "Unexpected API response
    format." exception inside the [try] block, where [except Exception]
    catches it: what the caller receives is status 500 with the detail
    "Internal server error: " followed by [str] of that exception, which
    is not the detail of the raised exception. *)
Theorem missing_field_detail_is_wrapped req w response members :
  well_formed req ->
  backend (spec_outbound_call req) = inr response ->
  is_success (resp_status_code response) = true ->
  resp_json response = Some (JObj members) ->
  dict_contains str_eq_dec $"translatedText" members = false ->
  exists detail,
    fst (translate_text backend req w) = inl (HTTPException 500 detail)
    /\ detail = $"Internal server error: "
                ++ exc_str (HTTPException 500 $"Unexpected API response format.")
    /\ detail <> $"Unexpected API response format."
    /\ detail <> $"unexpected API response format".
Proof.
  intros Hwf Hreply Hok Hjson Hmissing.
  eexists. split; [|split; [reflexivity|]].
  - pass_checks Hwf. run_try. rewrite Hreply.
    unfold bind, raise_for_status, Response_json.
    rewrite Hok, Hjson. unfold py_in, ret. cbv beta iota.
    rewrite Hmissing. reflexivity.
  - split; intros H; apply (f_equal (fun s => nth 0 s 0%N)) in H;
      discriminate H.
Qed.

(** C5. For every request that passes the checks, when the backend
    answers with a status that is not a success (503, say), the handler
    fails with status 500 and the detail "Translation service error: "
    followed by the text of the backend's response, so the response text
    occurs in the detail. *)
Theorem upstream_error_carries_body req w response :
  well_formed req ->
  backend (spec_outbound_call req) = inr response ->
  is_success (resp_status_code response) = false ->
  exists detail,
    fst (translate_text backend req w) = inl (HTTPException 500 detail)
    /\ detail = $"Translation service error: " ++ resp_text response
    /\ str_contains detail (resp_text response) = true.
Proof.
  intros Hwf Hreply Hstatus.
  eexists. split; [|split; [reflexivity | apply str_contains_suffix]].
  pass_checks Hwf. run_try. rewrite Hreply.
  unfold bind, raise_for_status. rewrite Hstatus. reflexivity.
Qed.

(** C6 (amended). A request whose source and target are the same
    supported code, with a text that has a character that is not
    whitespace, is not rejected with status 400: the handler issues the
    outbound call, and the [source] and [target] fields of its payload both
    hold that code. *)
Theorem same_language_accepted txt code w :
  blank txt = false ->
  In code language_codes ->
  (forall detail,
      fst (translate_text backend
             {| text := txt; source_lang := code; target_lang := code |} w)
      <> inl (HTTPException 400 detail))
  /\ exists call,
      snd (translate_text backend
             {| text := txt; source_lang := code; target_lang := code |} w)
      = w ++ [call]
      /\ dict_get str_eq_dec $"source" (call_data call) = Some code
      /\ dict_get str_eq_dec $"target" (call_data call) = Some code.
Proof.
  intros Hb Hc.
  assert (well_formed {| text := txt; source_lang := code; target_lang := code |})
    as Hwf by (repeat split; assumption).
  split.
  - intros detail H.
    destruct (translate_text_outcome backend w Hwf H) as [d E]. discriminate E.
  - eexists. split; [now apply translate_text_log|]. split; reflexivity.
Qed.

(** C7. For every request that passes the checks, the handler adds
    exactly one call to the log of outbound calls, whatever the backend
    answers: a POST to [TRANSLATION_API_URL] whose form fields are [q],
    [source], [target] and [format], holding the text, the two codes and
    "text", with the single header
    [Content-Type: application/x-www-form-urlencoded]. *)
Theorem one_outbound_post req w :
  well_formed req ->
  snd (translate_text backend req w)
  = w ++ [ {| call_method := $"POST";
              call_url := TRANSLATION_API_URL;
              call_data := [ ($"q", text req);
                             ($"source", source_lang req);
                             ($"target", target_lang req);
                             ($"format", $"text") ];
              call_headers :=
                [ ($"Content-Type", $"application/x-www-form-urlencoded") ] |} ].
Proof. intros Hwf. now rewrite translate_text_log. Qed.

(** C9. The [q] field of the outbound call is the text as the caller
    sent it: for a text with content, surrounded by whitespace, the field
    holds the text with that whitespace, and not the stripped text, which
    only the emptiness check looks at. *)
Theorem forwarded_text_untrimmed lead core trail src tgt w :
  blank lead = true -> blank trail = true -> blank core = false ->
  In src language_codes -> In tgt language_codes ->
  exists call,
    snd (translate_text backend
           {| text := lead ++ core ++ trail;
              source_lang := src; target_lang := tgt |} w)
    = w ++ [call]
    /\ dict_get str_eq_dec $"q" (call_data call) = Some (lead ++ core ++ trail)
    /\ (lead ++ trail <> [] ->
        dict_get str_eq_dec $"q" (call_data call)
        <> Some (strip (lead ++ core ++ trail))).
Proof.
  intros Hl Ht Hc Hs Hg.
  assert (well_formed {| text := lead ++ core ++ trail;
                         source_lang := src; target_lang := tgt |}) as Hwf.
  { repeat split; try assumption. simpl.
    rewrite !blank_app, Hc, Hl. reflexivity. }
  eexists. split; [now apply translate_text_log|].
  split; [reflexivity|].
  intros Hne. simpl. intros [= E].
  pose proof (strip_shorter lead core trail Hl Ht Hc Hne) as Hlen.
  rewrite <- E in Hlen. lia.
Qed.

(** C10. A failure with status 400 and a failed check go together, and
    neither comes with an outbound call: if [translate_text] fails with
    status 400, or if the text is blank, or the source or the target code
    is not in the table, then one of the three checks failed, the result
    is a failure with status 400, and the log of outbound calls is as it
    was. *)
Theorem invalid_input_makes_no_call req w :
  (exists detail,
      fst (translate_text backend req w) = inl (HTTPException 400 detail))
  \/ blank (text req) = true
  \/ ~ In (source_lang req) language_codes
  \/ ~ In (target_lang req) language_codes ->
  (exists detail,
      translate_text backend req w = (inl (HTTPException 400 detail), w))
  /\ (blank (text req) = true
      \/ ~ In (source_lang req) language_codes
      \/ ~ In (target_lang req) language_codes).
Proof.
  intros H.
  destruct (blank (text req)) eqn:Hb.
  { rewrite translate_text_blank by assumption. eauto. }
  destruct (in_dec str_eq_dec (source_lang req) language_codes) as [Hs|Hs].
  2: { rewrite translate_text_bad_source by assumption. eauto. }
  destruct (in_dec str_eq_dec (target_lang req) language_codes) as [Ht|Ht].
  2: { rewrite translate_text_bad_target by assumption. eauto. }
  assert (well_formed req) as Hwf by (repeat split; assumption).
  destruct H as [[detail H]|[H|[H|H]]]; try discriminate; try contradiction.
  destruct (translate_text_outcome backend w Hwf H) as [d E]. discriminate E.
Qed.
End Claims.

(** C8. For every code of the table, the name found for it in
    [SUPPORTED_LANGUAGES] is sent back to that code by [inv_langs], and no
    other code of the table has that name. *)
Theorem reverse_lookup_inverts_forward c :
  In c language_codes ->
  exists name,
    dict_get str_eq_dec c SUPPORTED_LANGUAGES = Some name
    /\ dict_get str_eq_dec name inv_langs = Some c
    /\ forall c', dict_get str_eq_dec c' SUPPORTED_LANGUAGES = Some name -> c' = c.
Proof.
  intros Hc. apply supported_iff in Hc. unfold dict_contains in Hc.
  destruct (dict_get str_eq_dec c SUPPORTED_LANGUAGES) as [name|] eqn:E;
    [|discriminate].
  exists name. split; [reflexivity|]. split.
  - apply (dict_invert_get str_eq_dec str_eq_dec _ _ SUPPORTED_LANGUAGES_values_NoDup E).
  - intros c' E'.
    apply (dict_values_inj str_eq_dec str_eq_dec _ _ _ SUPPORTED_LANGUAGES_values_NoDup E' E).
Qed.

(* ================================================================= *)
(** ** The handler on concrete requests *)

Lemma translate_hello_returns_hola_witness :
  fst (translate_text (constant_backend hola_response) hello_request [])
  = inr {| translated_text := $"Hola" |}.
Proof.
  apply (@translate_hello_returns_hola sample_runtime
           (constant_backend hola_response) []).
  reflexivity.
Defined.

(** C2, as stated, at the empty text: the detail of the failure is not
    the string "text is required". *)
Lemma empty_text_detail_counterexample :
  blank (text {| text := []; source_lang := $"en"; target_lang := $"es" |}) = true
  /\ fst (translate_text unreachable_backend
            {| text := []; source_lang := $"en"; target_lang := $"es" |} [])
     <> inl (HTTPException 400 $"text is required").
Proof.
  split; [reflexivity|].
  rewrite translate_text_blank by reflexivity. simpl.
  intros H. discriminate H.
Qed.

Lemma blank_text_rejected_witness :
  translate_text unreachable_backend
    {| text := whitespace_text; source_lang := $"xx"; target_lang := $"yy" |} []
  = (inl (HTTPException 400 $"Text is required."), []).
Proof.
  apply (@blank_text_rejected sample_runtime unreachable_backend
           {| text := whitespace_text; source_lang := $"xx"; target_lang := $"yy" |} []).
  reflexivity.
Defined.

(** C3, as stated, at a text of one space: the text is not empty and the
    source code is not in the table, yet the failure is the one of the text
    check, and its detail does not name the code. *)
Lemma space_text_bad_language_counterexample :
  [32]%N <> []
  /\ ~ In $"xx" language_codes
  /\ fst (translate_text unreachable_backend
            {| text := [32]%N; source_lang := $"xx"; target_lang := $"es" |} [])
     = inl (HTTPException 400 $"Text is required.")
  /\ str_contains $"Text is required." $"xx" = false.
Proof.
  split; [discriminate|]. split; [apply unsupported_iff; reflexivity|].
  split; reflexivity.
Qed.

Lemma unsupported_language_rejected_witness :
  fst (translate_text unreachable_backend
         {| text := $"Hello"; source_lang := $"xx"; target_lang := $"es" |} [])
  = inl (HTTPException 400 $"Unsupported source language: xx").
Proof.
  refine (proj1 (@unsupported_language_rejected sample_runtime unreachable_backend
                   {| text := $"Hello"; source_lang := $"xx"; target_lang := $"es" |} []
                   _) _).
  - reflexivity.
  - apply unsupported_iff. reflexivity.
Defined.

Lemma missing_field_detail_is_wrapped_witness :
  exists detail,
    fst (translate_text (constant_backend empty_object_response) hello_request [])
    = inl (HTTPException 500 detail)
    /\ detail = $"Internal server error: "
                ++ exc_str (HTTPException 500 $"Unexpected API response format.")
    /\ detail <> $"Unexpected API response format."
    /\ detail <> $"unexpected API response format".
Proof.
  apply (@missing_field_detail_is_wrapped sample_runtime
           (constant_backend empty_object_response) hello_request []
           empty_object_response []).
  - exact hello_request_well_formed.
  - reflexivity.
  - reflexivity.
  - reflexivity.
  - reflexivity.
Defined.

(** The same run, evaluated: with [str(e)] in the manner of Starlette the
    caller receives "Internal server error: 500: Unexpected API response
    format.". *)
Example missing_field_run :
  translate_text (constant_backend empty_object_response) hello_request []
  = (inl (HTTPException 500
            $"Internal server error: 500: Unexpected API response format."),
     [spec_outbound_call hello_request]).
Proof. reflexivity. Qed.

Lemma upstream_error_carries_body_witness :
  exists detail,
    fst (translate_text (constant_backend unavailable_response) hello_request [])
    = inl (HTTPException 500 detail)
    /\ detail = $"Translation service error: " ++ resp_text unavailable_response
    /\ str_contains detail (resp_text unavailable_response) = true.
Proof.
  apply (@upstream_error_carries_body sample_runtime
           (constant_backend unavailable_response) hello_request []
           unavailable_response).
  - exact hello_request_well_formed.
  - reflexivity.
  - reflexivity.
Defined.

(** C6, as stated, at a text of one space: the text is not empty and both
    codes are "en", yet the request is rejected by the text check and no
    call is issued. *)
Lemma space_text_same_language_counterexample :
  [32]%N <> []
  /\ In $"en" language_codes
  /\ translate_text unreachable_backend
       {| text := [32]%N; source_lang := $"en"; target_lang := $"en" |} []
     = (inl (HTTPException 400 $"Text is required."), []).
Proof.
  split; [discriminate|]. split; [apply supported_iff; reflexivity|].
  reflexivity.
Qed.

Lemma same_language_accepted_witness :
  (forall detail,
      fst (translate_text unreachable_backend
             {| text := $"Hello"; source_lang := $"en"; target_lang := $"en" |} [])
      <> inl (HTTPException 400 detail))
  /\ exists call,
      snd (translate_text unreachable_backend
             {| text := $"Hello"; source_lang := $"en"; target_lang := $"en" |} [])
      = [] ++ [call]
      /\ dict_get str_eq_dec $"source" (call_data call) = Some $"en"
      /\ dict_get str_eq_dec $"target" (call_data call) = Some $"en".
Proof.
  apply (@same_language_accepted sample_runtime unreachable_backend
           $"Hello" $"en" []).
  - reflexivity.
  - apply supported_iff. reflexivity.
Defined.

Lemma one_outbound_post_witness :
  snd (translate_text (constant_backend hola_response) hello_request [])
  = [] ++ [ {| call_method := $"POST";
               call_url := TRANSLATION_API_URL;
               call_data := [ ($"q", $"Hello"); ($"source", $"en");
                              ($"target", $"es"); ($"format", $"text") ];
               call_headers :=
                 [ ($"Content-Type", $"application/x-www-form-urlencoded") ] |} ].
Proof.
  apply (@one_outbound_post sample_runtime (constant_backend hola_response)
           hello_request []).
  exact hello_request_well_formed.
Defined.

Lemma reverse_lookup_inverts_forward_witness :
  exists name,
    dict_get str_eq_dec $"zh" SUPPORTED_LANGUAGES = Some name
    /\ dict_get str_eq_dec name inv_langs = Some $"zh"
    /\ forall c', dict_get str_eq_dec c' SUPPORTED_LANGUAGES = Some name -> c' = $"zh".
Proof.
  apply (@reverse_lookup_inverts_forward $"zh").
  apply supported_iff. reflexivity.
Defined.

Lemma forwarded_text_untrimmed_witness :
  exists call,
    snd (translate_text (constant_backend hola_response)
           {| text := [32; 32]%N ++ $"Hello" ++ [10]%N;
              source_lang := $"en"; target_lang := $"es" |} [])
    = [] ++ [call]
    /\ dict_get str_eq_dec $"q" (call_data call)
       = Some ([32; 32]%N ++ $"Hello" ++ [10]%N)
    /\ ([32; 32]%N ++ [10]%N <> [] ->
        dict_get str_eq_dec $"q" (call_data call)
        <> Some (strip ([32; 32]%N ++ $"Hello" ++ [10]%N))).
Proof.
  apply (@forwarded_text_untrimmed sample_runtime (constant_backend hola_response)
           [32; 32]%N $"Hello" [10]%N $"en" $"es" []).
  - reflexivity.
  - reflexivity.
  - reflexivity.
  - apply supported_iff. reflexivity.
  - apply supported_iff. reflexivity.
Defined.

Lemma invalid_input_makes_no_call_witness :
  (exists detail,
      translate_text (constant_backend hola_response)
        {| text := $"Hello"; source_lang := $"en"; target_lang := $"xx" |} []
      = (inl (HTTPException 400 detail), []))
  /\ (blank $"Hello" = true
      \/ ~ In $"en" language_codes
      \/ ~ In $"xx" language_codes).
Proof.
  apply (@invalid_input_makes_no_call sample_runtime (constant_backend hola_response)
           {| text := $"Hello"; source_lang := $"en"; target_lang := $"xx" |} []).
  left. exists $"Unsupported target language: xx". reflexivity.
Defined.

(** The stripped text of the example above is "Hello". *)
Example strip_padded_hello : strip padded_hello = $"Hello".
Proof. reflexivity. Qed.

(** The adapter, from display names to the translated text. *)
Example translate_gradio_english_spanish :
  translate_gradio (constant_backend hola_response) $"Hello" $"English" $"Spanish" []
  = (inr $"Hola", [spec_outbound_call hello_request]).
Proof. reflexivity. Qed.

(** A display name the table does not have makes the adapter fail with
    [KeyError], before the handler is called. *)
Example translate_gradio_unknown_name :
  translate_gradio (constant_backend hola_response) $"Hello" $"Klingon" $"Spanish" []
  = (inl (KeyError $"Klingon"), []).
Proof. reflexivity. Qed.

(* ================================================================= *)
(** ** More on dictionaries: assignment and inversion in general *)

Section DictSetFacts.
Context {K V : Type}.
Variable K_eq_dec : forall a b : K, {a = b} + {a <> b}.

Lemma dict_set_keys_In x k (v : V) d :
  In x (dict_keys (dict_set K_eq_dec k v d)) <-> x = k \/ In x (dict_keys d).
Proof.
  induction d as [|[k0 v0] d IH]; simpl.
  - split; [intros [E|[]]; auto | intros [E|[]]; auto].
  - destruct (K_eq_dec k k0) as [->|Hne]; simpl.
    + intuition congruence.
    + rewrite IH. intuition congruence.
Qed.

(** Assigning to a key the dictionary does not have appends the item. *)
Lemma dict_set_fresh k (v : V) d :
  ~ In k (dict_keys d) -> dict_set K_eq_dec k v d = d ++ [(k, v)].
Proof.
  induction d as [|[k0 v0] d IH]; simpl; intros Hk; [reflexivity|].
  destruct (K_eq_dec k k0) as [->|Hne]; [tauto|].
  rewrite IH by tauto. reflexivity.
Qed.

Lemma dict_set_keys_NoDup k (v : V) d :
  NoDup (dict_keys d) -> NoDup (dict_keys (dict_set K_eq_dec k v d)).
Proof.
  induction d as [|[k0 v0] d IH]; simpl; intros Hnd.
  - constructor; [intros [] | constructor].
  - inversion Hnd as [|? ? Hnotin Hnd']; subst.
    destruct (K_eq_dec k k0) as [->|Hne]; simpl.
    + constructor; assumption.
    + constructor; [|auto].
      intros Hin. apply dict_set_keys_In in Hin. destruct Hin; congruence.
Qed.
End DictSetFacts.

Section InvertInGeneral.
Context {K V : Type}.
Variable V_eq_dec : forall a b : V, {a = b} + {a <> b}.

Let step := fun (acc : dict V K) (kv : K * V) =>
  dict_set V_eq_dec (snd kv) (fst kv) acc.

Lemma invert_fold_sound k v l acc :
  dict_get V_eq_dec v (fold_left step l acc) = Some k ->
  In (k, v) l \/ dict_get V_eq_dec v acc = Some k.
Proof.
  revert acc. induction l as [|[k0 v0] l IH]; intros acc H; simpl in *.
  - now right.
  - apply IH in H. destruct H as [H|H]; [tauto|].
    unfold step in H; simpl in H.
    destruct (V_eq_dec v0 v) as [->|Hne].
    + rewrite dict_get_set_eq in H. injection H as ->. auto.
    + rewrite dict_get_set_ne in H by assumption. now right.
Qed.

Lemma invert_fold_keys x l acc :
  In x (dict_keys (fold_left step l acc))
  <-> In x (map snd l) \/ In x (dict_keys acc).
Proof.
  revert acc. induction l as [|[k0 v0] l IH]; intros acc; simpl.
  - tauto.
  - rewrite IH. unfold step; simpl. rewrite dict_set_keys_In.
    split; intros H; repeat destruct H as [H|H]; auto.
Qed.

Lemma invert_fold_swap l acc :
  NoDup (map snd l) ->
  (forall v, In v (map snd l) -> ~ In v (dict_keys acc)) ->
  fold_left step l acc = acc ++ map swap l.
Proof.
  revert acc. induction l as [|[k0 v0] l IH]; intros acc Hnd Hfresh; simpl in *.
  - now rewrite app_nil_r.
  - inversion Hnd as [|? ? Hnotin Hnd']; subst.
    unfold step at 2; simpl.
    rewrite dict_set_fresh by (apply Hfresh; now left).
    rewrite IH; [now rewrite <- app_assoc | assumption |].
    intros v Hv. unfold dict_keys. rewrite map_app, in_app_iff. simpl.
    intros [Hin|[<-|[]]]; [apply (Hfresh v); auto | contradiction].
Qed.
End InvertInGeneral.

Section InvertedTables.
Context {K V : Type}.
Variable K_eq_dec : forall a b : K, {a = b} + {a <> b}.
Variable V_eq_dec : forall a b : V, {a = b} + {a <> b}.

Lemma In_dict_get (d : dict K V) k v :
  NoDup (dict_keys d) -> In (k, v) d -> dict_get K_eq_dec k d = Some v.
Proof.
  induction d as [|[k0 v0] d IH]; simpl; intros Hnd Hin; [contradiction|].
  inversion Hnd as [|? ? Hnotin Hnd']; subst.
  destruct Hin as [[= -> ->]|Hin].
  - now destruct (K_eq_dec k k).
  - destruct (K_eq_dec k k0) as [->|Hne]; [|auto].
    exfalso. apply Hnotin. apply (in_map fst) in Hin. exact Hin.
Qed.

(** X14. The comprehension [{v: k for k, v in d.items()}] on any table: the
    result has no key twice; a lookup that finds [k] under [v] finds a pair
    [(k, v)] of the table; and a lookup finds nothing exactly for the
    values the table does not have. *)
Theorem reverse_lookup_of_any_table (d : dict K V) (v : V) :
  NoDup (dict_keys (dict_invert V_eq_dec d))
  /\ (forall k, dict_get V_eq_dec v (dict_invert V_eq_dec d) = Some k ->
                In (k, v) d)
  /\ (dict_get V_eq_dec v (dict_invert V_eq_dec d) = None
      <-> ~ In v (dict_values d)).
Proof.
  unfold dict_invert, dict_items. repeat split.
  - set (f := fun (acc : dict V K) (kv : K * V) =>
                dict_set V_eq_dec (snd kv) (fst kv) acc).
    assert (forall l acc, NoDup (dict_keys acc) ->
                          NoDup (dict_keys (fold_left f l acc))) as H.
    { induction l as [|[k0 v0] l IH]; intros acc Hnd; simpl; [exact Hnd|].
      apply IH. unfold f; simpl. now apply dict_set_keys_NoDup. }
    apply H. constructor.
  - intros k Hk. apply invert_fold_sound in Hk.
    destruct Hk as [Hk|Hk]; [exact Hk | discriminate Hk].
  - intros Hnone Hin. apply dict_get_None in Hnone. apply Hnone.
    apply invert_fold_keys. now left.
  - intros Hnot. apply dict_get_None. intros Hin.
    apply invert_fold_keys in Hin. destruct Hin as [Hin|[]]. now apply Hnot.
Qed.

(** X15. When several keys of a table carry the same value, the inverted
    table sends that value to the last of them: a pair [(k, v)] after which
    no pair carries [v] makes the reverse lookup of [v] answer [k]. *)
Theorem reverse_lookup_last_wins (before after : dict K V) k v :
  ~ In v (dict_values after) ->
  dict_get V_eq_dec v (dict_invert V_eq_dec (before ++ (k, v) :: after))
  = Some k.
Proof.
  intros Hlast. unfold dict_invert, dict_items.
  rewrite fold_left_app. simpl.
  rewrite invert_untouched by exact Hlast.
  apply dict_get_set_eq.
Qed.

(** X16. A table whose values are pairwise distinct is inverted pair by
    pair: the inverted table lists the exchanged pairs in the order of the
    table. *)
Theorem dict_invert_distinct_values (d : dict K V) :
  NoDup (dict_values d) ->
  dict_invert V_eq_dec d = map swap d.
Proof.
  intros Hnd. unfold dict_invert, dict_items.
  rewrite (invert_fold_swap V_eq_dec d [] Hnd); [reflexivity|].
  intros v _ [].
Qed.
End InvertedTables.

(* ================================================================= *)
(** ** The handler on every path *)

Ltac to_json_stage Hreply Hok :=
  run_try; rewrite Hreply;
  unfold bind, raise_for_status; rewrite Hok;
  unfold ret at 1; cbv beta iota; unfold Response_json.

Ltac open_steps :=
  unfold py_in, py_getitem, mk_TranslationResponse, when, raise, ret;
  cbv beta iota.

Section HandlerPaths.
Context {RT : Runtime}.
Variable backend : HttpCall -> exn + Response.

Lemma well_formed_dec req : {well_formed req} + {~ well_formed req}.
Proof.
  unfold well_formed.
  destruct (blank (text req)); [right; intros (H & _); discriminate|].
  destruct (in_dec str_eq_dec (source_lang req) language_codes);
    [|right; tauto].
  destruct (in_dec str_eq_dec (target_lang req) language_codes);
    [left; tauto | right; tauto].
Qed.

Lemma not_well_formed_rejected req w :
  ~ well_formed req ->
  exists detail,
    translate_text backend req w = (inl (HTTPException 400 detail), w).
Proof.
  intros Hn.
  destruct (blank (text req)) eqn:Hb.
  { rewrite translate_text_blank by assumption. eauto. }
  destruct (in_dec str_eq_dec (source_lang req) language_codes) as [Hs|Hs].
  2: { rewrite translate_text_bad_source by assumption. eauto. }
  destruct (in_dec str_eq_dec (target_lang req) language_codes) as [Ht|Ht].
  2: { rewrite translate_text_bad_target by assumption. eauto. }
  exfalso. apply Hn. repeat split; assumption.
Qed.

(** Past the checks a failure carries one of the two details of the
    [except] clauses. *)
Lemma translate_text_failure_shape req w e :
  well_formed req ->
  fst (translate_text backend req w) = inl e ->
  (exists body,
      e = HTTPException 500 ($"Translation service error: " ++ body))
  \/ (exists cause,
         e = HTTPException 500 ($"Internal server error: " ++ exc_str cause)).
Proof.
  intros Hwf. pass_checks Hwf. run_try.
  destruct (backend (spec_outbound_call req)) as [e0|response].
  - destruct e0; cbn; intros [= <-]; eauto.
  - match goal with
    | |- context [ (let (_, _) := ?m ?w0 in _) ] =>
        destruct (m w0) as [[e0|r] w']
    end.
    + destruct e0; cbn; intros [= <-]; eauto.
    + discriminate.
Qed.

Lemma translate_text_success_inv req w r :
  well_formed req ->
  fst (translate_text backend req w) = inr r ->
  exists response members v,
    backend (spec_outbound_call req) = inr response
    /\ is_success (resp_status_code response) = true
    /\ resp_json response = Some (JObj members)
    /\ dict_get str_eq_dec $"translatedText" members = Some v
    /\ validate_str v = Some (translated_text r).
Proof.
  intros Hwf. pass_checks Hwf. run_try.
  destruct (backend (spec_outbound_call req)) as [e|response] eqn:Hreply.
  { destruct e; discriminate. }
  unfold bind, raise_for_status.
  destruct (is_success (resp_status_code response)) eqn:Hok; [|discriminate].
  unfold ret at 1. cbv beta iota. unfold Response_json.
  destruct (resp_json response) as [data|] eqn:Hjson; [|discriminate].
  unfold ret at 1. cbv beta iota. open_steps.
  destruct data as [| | |s|items|members]; cbv beta iota; try discriminate.
  - destruct (str_contains s _); cbn [negb]; cbv beta iota; discriminate.
  - destruct (existsb _ items); cbn [negb]; cbv beta iota; discriminate.
  - unfold dict_contains.
    destruct (dict_get str_eq_dec _ members) as [v|] eqn:Hget;
      cbn [negb]; cbv beta iota; [|discriminate].
    destruct (validate_str v) as [t|] eqn:Hv; cbv beta iota; [|discriminate].
    cbn [fst]. intros [= <-].
    exists response, members, v. auto.
Qed.

Lemma translate_text_success req w response members v t :
  well_formed req ->
  backend (spec_outbound_call req) = inr response ->
  is_success (resp_status_code response) = true ->
  resp_json response = Some (JObj members) ->
  dict_get str_eq_dec $"translatedText" members = Some v ->
  validate_str v = Some t ->
  translate_text backend req w
  = (inr {| translated_text := t |}, w ++ [spec_outbound_call req]).
Proof.
  intros Hwf Hreply Hok Hjson Hget Hv.
  pass_checks Hwf. to_json_stage Hreply Hok. rewrite Hjson.
  unfold ret at 1. cbv beta iota. open_steps.
  unfold dict_contains. rewrite Hget. cbn [negb]. cbv beta iota.
  rewrite Hv. reflexivity.
Qed.
End HandlerPaths.

Section HandlerOutcomes.
Context {RT : Runtime}.
Variable backend : HttpCall -> exn + Response.

(** X1. Whatever the request and whatever the backend does, a failure of
    [translate_text] is an [HTTPException] with status 400 or 500: no
    exception of the transport, of JSON decoding, of indexing or of
    pydantic leaves the handler as it is. *)
Theorem failure_is_http_exception req w e :
  fst (translate_text backend req w) = inl e ->
  exists status detail,
    e = HTTPException status detail /\ (status = 400 \/ status = 500)%Z.
Proof.
  intros H. destruct (well_formed_dec req) as [Hwf|Hn].
  - destruct (translate_text_outcome backend w Hwf H) as [detail ->]. eauto.
  - destruct (not_well_formed_rejected backend w Hn) as [detail E].
    rewrite E in H. injection H as <-. eauto.
Qed.

(** X2. [translate_text] returns a response exactly when the request
    passes the three checks and the backend answers the call with a 2xx
    status and a JSON object whose [translatedText] member pydantic accepts
    as the string that is returned. *)
Theorem translate_text_success_iff req w r :
  fst (translate_text backend req w) = inr r
  <-> well_formed req
      /\ exists response members v,
           backend (spec_outbound_call req) = inr response
           /\ is_success (resp_status_code response) = true
           /\ resp_json response = Some (JObj members)
           /\ dict_get str_eq_dec $"translatedText" members = Some v
           /\ validate_str v = Some (translated_text r).
Proof.
  split.
  - intros H. destruct (well_formed_dec req) as [Hwf|Hn].
    + split; [exact Hwf|]. now apply translate_text_success_inv with (w := w).
    + destruct (not_well_formed_rejected backend w Hn) as [detail E].
      rewrite E in H. discriminate H.
  - intros (Hwf & response & members & v & Hreply & Hok & Hjson & Hget & Hv).
    erewrite translate_text_success by eassumption.
    destruct r. reflexivity.
Qed.

(** X3. When the request passes the checks and the transport raises
    instead of handing back a response (the backend is down, say), the
    handler fails with status 500 and the detail "Internal server error: "
    followed by [str] of that exception; the call is in the log. *)
Theorem transport_failure_is_internal_error req w e :
  well_formed req ->
  backend (spec_outbound_call req) = inl e ->
  (forall response, e <> HTTPStatusError response) ->
  translate_text backend req w
  = (inl (HTTPException 500 ($"Internal server error: " ++ exc_str e)),
     w ++ [spec_outbound_call req]).
Proof.
  intros Hwf Hreply Hkind. pass_checks Hwf. run_try. rewrite Hreply.
  destruct e; try reflexivity.
  exfalso. now apply (Hkind response).
Qed.

(** X4. When the request passes the checks and the backend answers with a
    2xx status and a body that is not JSON, [response.json()] raises and
    the handler fails with status 500 and the detail "Internal server
    error: " followed by [str] of the decoding error. *)
Theorem malformed_body_is_internal_error req w response :
  well_formed req ->
  backend (spec_outbound_call req) = inr response ->
  is_success (resp_status_code response) = true ->
  resp_json response = None ->
  fst (translate_text backend req w)
  = inl (HTTPException 500
           ($"Internal server error: "
            ++ exc_str (JSONDecodeError (resp_text response)))).
Proof.
  intros Hwf Hreply Hok Hjson.
  pass_checks Hwf. to_json_stage Hreply Hok. rewrite Hjson. reflexivity.
Qed.


(** X6. When the [translatedText] member of the answer is a value pydantic
    does not accept for the [str] field of [TranslationResponse], the
    handler fails with status 500 and the detail "Internal server error: "
    followed by [str] of the validation error. *)
Theorem rejected_value_is_internal_error req w response members v :
  well_formed req ->
  backend (spec_outbound_call req) = inr response ->
  is_success (resp_status_code response) = true ->
  resp_json response = Some (JObj members) ->
  dict_get str_eq_dec $"translatedText" members = Some v ->
  validate_str v = None ->
  fst (translate_text backend req w)
  = inl (HTTPException 500
           ($"Internal server error: " ++ exc_str (ValidationError v))).
Proof.
  intros Hwf Hreply Hok Hjson Hget Hv.
  pass_checks Hwf. to_json_stage Hreply Hok. rewrite Hjson.
  unfold ret at 1. cbv beta iota. open_steps.
  unfold dict_contains. rewrite Hget. cbn [negb]. cbv beta iota.
  rewrite Hv. reflexivity.
Qed.

(** X7. The detail of a failure with status 500 is always one of the two
    texts of the [except] clauses: "Translation service error: " followed
    by some text, or "Internal server error: " followed by [str] of an
    exception.  The detail "Unexpected API response format." of the
    exception raised inside the [try] block is never the detail the caller
    gets. *)
Theorem server_error_detail_shape req w detail :
  fst (translate_text backend req w) = inl (HTTPException 500 detail) ->
  ((exists body, detail = $"Translation service error: " ++ body)
   \/ (exists cause, detail = $"Internal server error: " ++ exc_str cause))
  /\ detail <> $"Unexpected API response format.".
Proof.
  intros H.
  assert ((exists body, detail = $"Translation service error: " ++ body)
          \/ (exists cause, detail = $"Internal server error: " ++ exc_str cause))
    as Hshape.
  { destruct (well_formed_dec req) as [Hwf|Hn].
    - destruct (translate_text_failure_shape backend w Hwf H)
        as [[body [= ->]]|[cause [= ->]]];
        [left | right]; eexists; reflexivity.
    - destruct (not_well_formed_rejected backend w Hn) as [d E].
      rewrite E in H. discriminate H. }
  split; [exact Hshape|].
  destruct Hshape as [[body ->]|[cause ->]]; intros E;
    apply (f_equal (fun s => nth 0 s 0%N)) in E; discriminate E.
Qed.

(** X8. A response, or a failure with status 500, is only ever the outcome
    of a request that passed the three checks and for which exactly one
    call went out. *)
Theorem outcome_after_call req w :
  (exists r, fst (translate_text backend req w) = inr r)
  \/ (exists detail,
         fst (translate_text backend req w) = inl (HTTPException 500 detail)) ->
  well_formed req
  /\ snd (translate_text backend req w) = w ++ [spec_outbound_call req].
Proof.
  intros H. destruct (well_formed_dec req) as [Hwf|Hn].
  - split; [exact Hwf | now apply translate_text_log].
  - destruct (not_well_formed_rejected backend w Hn) as [d E].
    rewrite E in H. destruct H as [[r H]|[detail H]]; discriminate H.
Qed.
End HandlerOutcomes.

(* ================================================================= *)
(** ** The Gradio adapter *)

Lemma SUPPORTED_LANGUAGES_keys_NoDup : NoDup (dict_keys SUPPORTED_LANGUAGES).
Proof.
  apply (NoDup_count_occ' str_eq_dec). intros x Hx.
  repeat (destruct Hx as [<-|Hx]; [reflexivity|]). contradiction.
Qed.

(** A display name of the dropdowns is sent to a code of the table that
    has this name. *)
Lemma choice_lookup name :
  In name language_choices ->
  exists code,
    dict_get str_eq_dec name inv_langs = Some code
    /\ dict_get str_eq_dec code SUPPORTED_LANGUAGES = Some name
    /\ In code language_codes.
Proof.
  intros Hin.
  destruct (reverse_lookup_of_any_table str_eq_dec SUPPORTED_LANGUAGES name)
    as (_ & Hsound & Hnone).
  fold inv_langs in Hsound, Hnone.
  destruct (dict_get str_eq_dec name inv_langs) as [code|] eqn:E.
  - exists code. split; [reflexivity|].
    specialize (Hsound code eq_refl). split.
    + apply (In_dict_get str_eq_dec _ _ _ SUPPORTED_LANGUAGES_keys_NoDup Hsound).
    + rewrite <- SUPPORTED_LANGUAGES_keys. apply (in_map fst) in Hsound. exact Hsound.
  - exfalso. now apply Hnone.
Qed.

Lemma unknown_name_lookup name :
  ~ In name language_choices -> dict_get str_eq_dec name inv_langs = None.
Proof.
  intros Hnot.
  now apply (reverse_lookup_of_any_table str_eq_dec SUPPORTED_LANGUAGES name).
Qed.

Lemma name_lookup code name :
  dict_get str_eq_dec code SUPPORTED_LANGUAGES = Some name ->
  dict_get str_eq_dec name inv_langs = Some code.
Proof.
  apply (dict_invert_get str_eq_dec str_eq_dec _ _ SUPPORTED_LANGUAGES_values_NoDup).
Qed.

Section Adapter.
Context {RT : Runtime}.
Variable backend : HttpCall -> exn + Response.

(** X9. A display name the table does not have makes [translate_gradio]
    fail with [KeyError] on that name before the handler runs: on the
    source name first, on the target name when the source name is known.
    No call goes out, and the text is not looked at. *)
Theorem gradio_unknown_name_is_key_error txt source_name target_name w :
  ~ In source_name language_choices \/ ~ In target_name language_choices ->
  exists name,
    translate_gradio backend txt source_name target_name w
    = (inl (KeyError name), w)
    /\ ~ In name language_choices
    /\ (name = source_name
        \/ In source_name language_choices /\ name = target_name).
Proof.
  intros Hbad. unfold translate_gradio, bind, dict_getitem.
  destruct (in_dec str_eq_dec source_name language_choices) as [Hs|Hs].
  - assert (~ In target_name language_choices) as Ht by tauto.
    destruct (choice_lookup Hs) as (code & -> & _).
    rewrite (unknown_name_lookup Ht).
    exists target_name. auto.
  - rewrite (unknown_name_lookup Hs). exists source_name. auto.
Qed.

(** X10. On the display names of two codes of the table,
    [translate_gradio] is [translate_text] on those codes: the same calls
    go out, a failure is passed on as it is, and of a response the
    translated text is returned. *)
Theorem gradio_runs_handler_on_codes txt source target source_name target_name w :
  dict_get str_eq_dec source SUPPORTED_LANGUAGES = Some source_name ->
  dict_get str_eq_dec target SUPPORTED_LANGUAGES = Some target_name ->
  translate_gradio backend txt source_name target_name w
  = match translate_text backend
            {| text := txt; source_lang := source; target_lang := target |} w
    with
    | (inl e, w') => (inl e, w')
    | (inr response, w') => (inr (translated_text response), w')
    end.
Proof.
  intros Hs Ht. unfold translate_gradio, bind at 1 2 3, dict_getitem.
  rewrite (@name_lookup _ _ Hs), (@name_lookup _ _ Ht). reflexivity.
Qed.

(** X11. With names chosen from the dropdowns, [translate_gradio] never
    fails with [KeyError] and never with an unsupported language: its only
    failures are "Text is required." with status 400, for a blank text,
    and failures with status 500, for a text that is not blank. *)
Theorem gradio_choices_never_unsupported txt source_name target_name w e :
  In source_name language_choices ->
  In target_name language_choices ->
  fst (translate_gradio backend txt source_name target_name w) = inl e ->
  (blank txt = true /\ e = HTTPException 400 $"Text is required.")
  \/ (blank txt = false /\ exists detail, e = HTTPException 500 detail).
Proof.
  intros Hs Ht.
  destruct (choice_lookup Hs) as (source & _ & Hsn & Hsc).
  destruct (choice_lookup Ht) as (target & _ & Htn & Htc).
  rewrite (@gradio_runs_handler_on_codes txt _ _ _ _ w Hsn Htn).
  set (req := {| text := txt; source_lang := source; target_lang := target |}).
  destruct (blank txt) eqn:Hb.
  - rewrite (translate_text_blank backend req w Hb). intros [= <-]. now left.
  - assert (well_formed req) as Hwf by (repeat split; assumption).
    pose proof (translate_text_outcome backend w (e := e) Hwf) as Hout.
    destruct (translate_text backend req w) as [[e0|r] w']; [|discriminate].
    cbn [fst] in *. intros [= ->]. right. split; [reflexivity|]. now apply Hout.
Qed.

(** X12. End to end: for the display names of two codes of the table and a
    text that is not blank, when the backend answers the call with a 2xx
    status and a JSON object whose [translatedText] is a string,
    [translate_gradio] returns that string as it is, after the one call
    with the text and the two codes. *)
Theorem gradio_returns_backend_text
    txt source target source_name target_name w response members translation :
  dict_get str_eq_dec source SUPPORTED_LANGUAGES = Some source_name ->
  dict_get str_eq_dec target SUPPORTED_LANGUAGES = Some target_name ->
  blank txt = false ->
  backend (spec_outbound_call
             {| text := txt; source_lang := source; target_lang := target |})
  = inr response ->
  is_success (resp_status_code response) = true ->
  resp_json response = Some (JObj members) ->
  dict_get str_eq_dec $"translatedText" members = Some (JStr translation) ->
  translate_gradio backend txt source_name target_name w
  = (inr translation,
     w ++ [ {| call_method := $"POST";
               call_url := TRANSLATION_API_URL;
               call_data := [ ($"q", txt); ($"source", source);
                              ($"target", target); ($"format", $"text") ];
               call_headers :=
                 [ ($"Content-Type", $"application/x-www-form-urlencoded") ] |} ]).
Proof.
  intros Hs Ht Hb Hreply Hok Hjson Hget.
  rewrite (@gradio_runs_handler_on_codes txt _ _ _ _ w Hs Ht).
  assert (In source language_codes /\ In target language_codes) as [Hsc Htc].
  { split; apply supported_iff; unfold dict_contains; [now rewrite Hs | now rewrite Ht]. }
  erewrite translate_text_success;
    [reflexivity | repeat split; assumption | eassumption.. | apply validate_str_JStr].
Qed.
End Adapter.

(** X13. Every name the dropdowns offer is sent by [inv_langs] to a code
    of the table whose display name it is: looking the name up and then
    looking the code up in [SUPPORTED_LANGUAGES] gives the name again. *)
Theorem choice_resolves_to_its_code name :
  In name language_choices ->
  exists code,
    dict_get str_eq_dec name inv_langs = Some code
    /\ dict_get str_eq_dec code SUPPORTED_LANGUAGES = Some name
    /\ In code language_codes.
Proof. apply choice_lookup. Qed.

(* ================================================================= *)
(** ** The further properties on concrete inputs *)

Lemma failure_is_http_exception_witness :
  exists status detail,
    HTTPException 500 $"Internal server error: All connection attempts failed"
    = HTTPException status detail
    /\ (status = 400 \/ status = 500)%Z.
Proof.
  apply (@failure_is_http_exception sample_runtime unreachable_backend
           hello_request []).
  reflexivity.
Defined.

Lemma translate_text_success_iff_witness :
  fst (translate_text (constant_backend hola_response) hello_request [])
  = inr {| translated_text := $"Hola" |}.
Proof.
  apply (@translate_text_success_iff sample_runtime
           (constant_backend hola_response) hello_request []).
  split; [exact hello_request_well_formed|].
  exists hola_response, [ ($"translatedText", JStr $"Hola") ], (JStr $"Hola").
  repeat split.
Defined.

Lemma transport_failure_is_internal_error_witness :
  translate_text unreachable_backend hello_request []
  = (inl (HTTPException 500
            ($"Internal server error: "
             ++ exc_str (TransportError $"All connection attempts failed"))),
     [] ++ [spec_outbound_call hello_request]).
Proof.
  apply (@transport_failure_is_internal_error sample_runtime unreachable_backend
           hello_request [] (TransportError $"All connection attempts failed")).
  - exact hello_request_well_formed.
  - reflexivity.
  - discriminate.
Defined.

Lemma malformed_body_is_internal_error_witness :
  fst (translate_text (constant_backend html_response) hello_request [])
  = inl (HTTPException 500
           ($"Internal server error: "
            ++ exc_str (JSONDecodeError (resp_text html_response)))).
Proof.
  apply (@malformed_body_is_internal_error sample_runtime
           (constant_backend html_response) hello_request [] html_response).
  - exact hello_request_well_formed.
  - reflexivity.
  - reflexivity.
  - reflexivity.
Defined.


(** The list that has "translatedText" as an item passes the [in] test and
    fails at the indexing. *)
Example list_body_run :
  fst (translate_text (constant_backend list_response) hello_request [])
  = inl (HTTPException 500
           ($"Internal server error: "
            ++ exc_str (TypeError (JArr [JStr $"translatedText"])))).
Proof. reflexivity. Qed.

Lemma rejected_value_is_internal_error_witness :
  fst (translate_text (constant_backend number_response) hello_request [])
  = inl (HTTPException 500
           ($"Internal server error: "
            ++ exc_str (ValidationError (JNum $"42")))).
Proof.
  apply (@rejected_value_is_internal_error sample_runtime
           (constant_backend number_response) hello_request [] number_response
           [ ($"translatedText", JNum $"42") ] (JNum $"42")).
  - exact hello_request_well_formed.
  - reflexivity.
  - reflexivity.
  - reflexivity.
  - reflexivity.
  - reflexivity.
Defined.

Lemma server_error_detail_shape_witness :
  ((exists body,
       $"Internal server error: 500: Unexpected API response format."
       = $"Translation service error: " ++ body)
   \/ (exists cause,
          $"Internal server error: 500: Unexpected API response format."
          = $"Internal server error: " ++ exc_str cause))
  /\ $"Internal server error: 500: Unexpected API response format."
     <> $"Unexpected API response format.".
Proof.
  apply (@server_error_detail_shape sample_runtime
           (constant_backend empty_object_response) hello_request []).
  reflexivity.
Defined.

Lemma outcome_after_call_witness :
  well_formed hello_request
  /\ snd (translate_text (constant_backend hola_response) hello_request [])
     = [] ++ [spec_outbound_call hello_request].
Proof.
  apply (@outcome_after_call sample_runtime (constant_backend hola_response)
           hello_request []).
  left. exists {| translated_text := $"Hola" |}. reflexivity.
Defined.

Lemma gradio_unknown_name_is_key_error_witness :
  exists name,
    translate_gradio (constant_backend hola_response)
      [] $"Klingon" $"Spanish" []
    = (inl (KeyError name), [])
    /\ ~ In name language_choices
    /\ (name = $"Klingon"
        \/ In $"Klingon" language_choices /\ name = $"Spanish").
Proof.
  apply (@gradio_unknown_name_is_key_error sample_runtime
           (constant_backend hola_response) [] $"Klingon" $"Spanish" []).
  left. simpl. intros H.
  repeat (destruct H as [H|H]; [discriminate H|]). exact H.
Defined.

Lemma gradio_runs_handler_on_codes_witness :
  translate_gradio (constant_backend hola_response)
    $"Hello" default_source_choice default_target_choice []
  = match translate_text (constant_backend hola_response) hello_request [] with
    | (inl e, w') => (inl e, w')
    | (inr response, w') => (inr (translated_text response), w')
    end.
Proof.
  apply (@gradio_runs_handler_on_codes sample_runtime
           (constant_backend hola_response)
           $"Hello" $"en" $"es" $"English" $"Spanish" []).
  - reflexivity.
  - reflexivity.
Defined.

Lemma gradio_choices_never_unsupported_witness :
  (blank whitespace_text = true
   /\ HTTPException 400 $"Text is required."
      = HTTPException 400 $"Text is required.")
  \/ (blank whitespace_text = false
      /\ exists detail,
          HTTPException 400 $"Text is required." = HTTPException 500 detail).
Proof.
  apply (@gradio_choices_never_unsupported sample_runtime unreachable_backend
           whitespace_text $"German" $"Hindi" []).
  - simpl; tauto.
  - simpl; tauto.
  - reflexivity.
Defined.

Lemma gradio_returns_backend_text_witness :
  translate_gradio (constant_backend hola_response)
    $"Hello" $"English" $"Spanish" []
  = (inr $"Hola",
     [] ++ [ {| call_method := $"POST";
                call_url := TRANSLATION_API_URL;
                call_data := [ ($"q", $"Hello"); ($"source", $"en");
                               ($"target", $"es"); ($"format", $"text") ];
                call_headers :=
                  [ ($"Content-Type", $"application/x-www-form-urlencoded") ] |} ]).
Proof.
  apply (@gradio_returns_backend_text sample_runtime
           (constant_backend hola_response)
           $"Hello" $"en" $"es" $"English" $"Spanish" [] hola_response
           [ ($"translatedText", JStr $"Hola") ] $"Hola").
  - reflexivity.
  - reflexivity.
  - reflexivity.
  - reflexivity.
  - reflexivity.
  - reflexivity.
  - reflexivity.
Defined.

Lemma choice_resolves_to_its_code_witness :
  exists code,
    dict_get str_eq_dec $"Chinese" inv_langs = Some code
    /\ dict_get str_eq_dec code SUPPORTED_LANGUAGES = Some $"Chinese"
    /\ In code language_codes.
Proof.
  apply (@choice_resolves_to_its_code $"Chinese").
  simpl; tauto.
Defined.

Lemma reverse_lookup_last_wins_witness :
  dict_get str_eq_dec $"Chinese"
    (dict_invert str_eq_dec
       ([ ($"zh", $"Chinese") ] ++ ($"zh-TW", $"Chinese") :: [ ($"ja", $"Japanese") ]))
  = Some $"zh-TW".
Proof.
  apply (@reverse_lookup_last_wins str str str_eq_dec
           [ ($"zh", $"Chinese") ] [ ($"ja", $"Japanese") ] $"zh-TW" $"Chinese").
  simpl. intros [H|[]]. discriminate H.
Defined.

Lemma dict_invert_distinct_values_witness :
  inv_langs = map swap SUPPORTED_LANGUAGES.
Proof.
  apply (@dict_invert_distinct_values str str str_eq_dec SUPPORTED_LANGUAGES).
  exact SUPPORTED_LANGUAGES_values_NoDup.
Defined.

(** The preselected names of the two dropdowns are among the names they
    offer. *)
Example default_choices_offered :
  In default_source_choice language_choices
  /\ In default_target_choice language_choices.
Proof. split; simpl; tauto. Qed.
